(** * v4l2_cap_hack: the ioctl interposer of webcam-fix

    A shallow embedding of [src/webcam-fix/v4l2_cap_hack.c] and the
    properties of its intercepted [ioctl].

    The C file keeps one piece of process-wide state (the function pointer
    [real_ioctl]) and mutates one caller-owned record in place.  Both are
    modelled explicitly: a [process] carries the pointer and a typed heap,
    and every operation that C leaves undefined (a call through a null
    pointer, a cast to a record that is not there, [strstr] on a buffer
    without terminator) yields [Undefined] instead of a result. *)

From Stdlib Require Import ZArith List Bool Lia.
From Stdlib Require Import Strings.Byte Strings.String.
From stdpp Require Import base option list gmap.

Local Open Scope Z_scope.

(** ** Platform interface *)

(** The three constants the C file takes from [<linux/videodev2.h>].  The
    header belongs to the platform, not to the repository, so the
    development is parametric in their values. *)
Class videodev2 := {
  VIDIOC_QUERYCAP : Z;
  V4L2_CAP_VIDEO_CAPTURE : Z;
  V4L2_CAP_VIDEO_OUTPUT : Z
}.

(** The values of the Linux UAPI header, for concrete runs. *)
Definition linux_uapi : videodev2 :=
  {| VIDIOC_QUERYCAP := 0x80685600;
     V4L2_CAP_VIDEO_CAPTURE := 0x00000001;
     V4L2_CAP_VIDEO_OUTPUT := 0x00000002 |}.

(** Modelled from the spec: [struct v4l2_capability] is declared in the
    platform header.  The spec asks for a bounded character buffer holding
    the card name and two unsigned 32-bit bitmasks; the remaining fields
    complete the record so that "all other data" has a meaning. *)
Record v4l2_capability := {
  driver : list byte;
  card : list byte;
  bus_info : list byte;
  version : Z;
  capabilities : Z;
  device_caps : Z;
  reserved : list Z
}.

(** ** Machine integers *)

(** [__u32] arithmetic: results are reduced modulo 2^32. *)
Definition u32 (z : Z) : Z := z mod 2 ^ 32.

Definition is_u32 (z : Z) : Prop := 0 <= z < 2 ^ 32.

(** [a |= b] on an [__u32] lvalue. *)
Definition or_u32 (a b : Z) : Z := u32 (Z.lor a b).

(** A capability mask is present in a bitmask field: [(field & mask) == mask]. *)
Definition has_cap (field mask : Z) : Prop := Z.land field mask = mask.

(** ** Undefined behaviour as an error monad *)

Inductive fault :=
  | NullCall        (* call through a null function pointer *)
  | WildPointer     (* the argument does not point to a capability record *)
  | NoTerminator.   (* strstr on a buffer that holds no NUL *)

Inductive outcome (A : Type) :=
  | Ok (a : A)
  | Undefined (f : fault).
Arguments Ok {A} a.
Arguments Undefined {A} f.

#[global] Instance outcome_ret : MRet outcome := fun A a => Ok a.
#[global] Instance outcome_bind : MBind outcome := fun A B k m =>
  match m with
  | Ok a => k a
  | Undefined f => Undefined f
  end.
#[global] Instance outcome_fmap : FMap outcome := fun A B g m =>
  match m with
  | Ok a => Ok (g a)
  | Undefined f => Undefined f
  end.

(** ** C strings *)

(** A string literal of the C source, without its terminator. *)
Definition c_lit (s : string) : list byte := list_byte_of_string s.

(** The string a [char *] into a buffer denotes: the bytes before the first
    NUL.  A buffer without NUL is not a string. *)
Fixpoint c_str (buf : list byte) : option (list byte) :=
  match buf with
  | [] => None
  | b :: rest =>
      if Byte.eqb b x00 then Some []
      else cons b <$> c_str rest
  end.

Fixpoint has_prefix (needle s : list byte) : bool :=
  match needle, s with
  | [], _ => true
  | _ :: _, [] => false
  | n :: needle', c :: s' => Byte.eqb n c && has_prefix needle' s'
  end.

(** Offset of the first occurrence of [needle] in the string [s]. *)
Fixpoint find (s needle : list byte) {struct s} : option nat :=
  if has_prefix needle s then Some 0%nat
  else match s with
       | [] => None
       | _ :: s' => S <$> find s' needle
       end.

(** [strstr(haystack, needle)]: [Some off] stands for the pointer
    [haystack + off], [None] for [NULL]. *)
Definition strstr (haystack needle : list byte) : outcome (option nat) :=
  match c_str haystack with
  | Some s => Ok (find s needle)
  | None => Undefined NoTerminator
  end.

(** [needle] occurs in the byte sequence [s]. *)
Definition occurs_in (needle s : list byte) : Prop :=
  exists pre post, s = pre ++ needle ++ post.

(** ** Process state *)

(** What a [void *] can point to. *)
Inductive object :=
  | Capability (cap : v4l2_capability)
  | Opaque (bytes : list byte).

(** An implementation of [int ioctl(int fd, unsigned long request, void *arg)]:
    it returns a status and may rewrite memory. *)
Definition ioctl_fn : Type := Z -> Z -> Z -> gmap Z object -> Z * gmap Z object.

Record process := {
  real_ioctl : option ioctl_fn;   (* [None] is [NULL] *)
  mem : gmap Z object
}.

(** The process before the first call: [static ... real_ioctl = NULL]. *)
Definition start (m : gmap Z object) : process :=
  {| real_ioctl := None; mem := m |}.

(** ** The shim *)

Section Shim.
Context {V : videodev2}.

(** [init_real_ioctl]; [dlsym_next] is what [dlsym(RTLD_NEXT, "ioctl")]
    answers at the time of the call. *)
Definition init_real_ioctl (dlsym_next : option ioctl_fn) (p : process) : process :=
  match real_ioctl p with
  | None => {| real_ioctl := dlsym_next; mem := mem p |}
  | Some _ => p
  end.

Definition set_capabilities (v : Z) (cap : v4l2_capability) : v4l2_capability :=
  {| driver := driver cap; card := card cap; bus_info := bus_info cap;
     version := version cap; capabilities := v;
     device_caps := device_caps cap; reserved := reserved cap |}.

Definition set_device_caps (v : Z) (cap : v4l2_capability) : v4l2_capability :=
  {| driver := driver cap; card := card cap; bus_info := bus_info cap;
     version := version cap; capabilities := capabilities cap;
     device_caps := v; reserved := reserved cap |}.

(** The condition of lines 57-59, with the short circuit of [||]. *)
Definition looks_like_loopback (cap : v4l2_capability) : outcome bool :=
  p1 ← strstr (card cap) (c_lit "Loopback");
  if bool_decide (p1 ≠ None) then Ok true else
  p2 ← strstr (card cap) (c_lit "NekoCam");
  if bool_decide (p2 ≠ None) then Ok true else
  p3 ← strstr (card cap) (c_lit "loopback");
  Ok (bool_decide (p3 ≠ None)).

(** Lines 62-63. *)
Definition add_video_output (cap : v4l2_capability) : v4l2_capability :=
  let cap1 := set_capabilities (or_u32 (capabilities cap) V4L2_CAP_VIDEO_OUTPUT) cap in
  set_device_caps (or_u32 (device_caps cap1) V4L2_CAP_VIDEO_OUTPUT) cap1.

(** Lines 53-67: the record behind [arg] is inspected and, on a match,
    patched in place. *)
Definition querycap_fixup (arg : Z) (m : gmap Z object) : outcome (gmap Z object) :=
  match m !! arg with
  | Some (Capability cap) =>
      hit ← looks_like_loopback cap;
      if hit : bool then Ok (<[arg := Capability (add_video_output cap)]> m)
      else Ok m
  | _ => Undefined WildPointer
  end.

(** Lines 44-70, once the delegate [f] is known. *)
Definition forward (f : ioctl_fn) (fd request arg : Z) (m : gmap Z object)
  : outcome (Z * gmap Z object) :=
  let '(ret, m1) := f fd request arg m in
  if (ret =? 0) && (request =? VIDIOC_QUERYCAP) then
    m2 ← querycap_fixup arg m1;
    Ok (ret, m2)
  else Ok (ret, m1).

(** The intercepted [ioctl]. *)
Definition ioctl (dlsym_next : option ioctl_fn) (fd request arg : Z) (p : process)
  : outcome (Z * process) :=
  let p1 := init_real_ioctl dlsym_next p in
  match real_ioctl p1 with
  | None => Undefined NullCall
  | Some f =>
      '(ret, m') ← forward f fd request arg (mem p1);
      Ok (ret, {| real_ioctl := real_ioctl p1; mem := m' |})
  end.

End Shim.

(** ** Calls over the lifetime of a process *)

(** One invocation of the intercepted entry point: what the caller did to
    memory since the previous call, what the loader would answer now, and
    the three arguments. *)
Record call := {
  c_setup : gmap Z object -> gmap Z object;
  c_dlsym : option ioctl_fn;
  c_fd : Z;
  c_request : Z;
  c_arg : Z
}.

Section Runs.
Context {V : videodev2}.

Definition step (c : call) (p : process) : outcome (Z * process) :=
  ioctl (c_dlsym c) (c_fd c) (c_request c) (c_arg c)
        {| real_ioctl := real_ioctl p; mem := c_setup c (mem p) |}.

(** The same call served by [f] directly, whatever the loader says. *)
Definition step_via (f : ioctl_fn) (c : call) (m : gmap Z object)
  : outcome (Z * gmap Z object) :=
  forward f (c_fd c) (c_request c) (c_arg c) (c_setup c m).

Fixpoint run (cs : list call) (p : process) : outcome (list Z * process) :=
  match cs with
  | [] => Ok ([], p)
  | c :: cs' =>
      '(r, p1) ← step c p;
      '(rs, p2) ← run cs' p1;
      Ok (r :: rs, p2)
  end.

Fixpoint run_via (f : ioctl_fn) (cs : list call) (m : gmap Z object)
  : outcome (list Z * gmap Z object) :=
  match cs with
  | [] => Ok ([], m)
  | c :: cs' =>
      '(r, m1) ← step_via f c m;
      '(rs, m2) ← run_via f cs' m1;
      Ok (r :: rs, m2)
  end.

(** Resolving again and again, with the loader's answers [answers]. *)
Definition resolve_all (answers : list (option ioctl_fn)) (p : process) : process :=
  fold_left (fun q a => init_real_ioctl a q) answers p.

End Runs.

(** ** Concrete data for the examples *)

(** A buffer of [n] bytes holding [bytes], padded with NUL. *)
Definition padded (n : nat) (bytes : list byte) : list byte :=
  bytes ++ repeat x00 (n - length bytes)%nat.

Definition blank_cap (card_bytes : list byte) (caps : Z) : v4l2_capability :=
  {| driver := padded 16 (c_lit "v4l2 loopback");
     card := padded 32 card_bytes;
     bus_info := padded 32 (c_lit "platform:v4l2loopback-000");
     version := 0x00060100;
     capabilities := caps;
     device_caps := caps;
     reserved := [0; 0; 0] |}.

(** A delegate in the manner of the kernel: [VIDIOC_QUERYCAP] fills the
    record behind [arg] and succeeds, everything else fails with -1 and
    leaves memory alone. *)
Definition kernel_with (cap : v4l2_capability) : ioctl_fn :=
  fun fd request arg m =>
    if request =? 0x80685600 then (0, <[arg := Capability cap]> m)
    else (-1, m).

(** A delegate that always reports [status] and touches nothing. *)
Definition always (status : Z) : ioctl_fn :=
  fun fd request arg m => (status, m).

(** A delegate that succeeds on every request and writes behind [arg]. *)
Definition scribbler : ioctl_fn :=
  fun fd request arg m => (0, <[arg := Opaque (c_lit "termios")]> m).

(** Records as drivers report them, and one whose card buffer carries stale
    bytes behind the terminator of a one-letter name. *)
Definition dummy_loopback : v4l2_capability :=
  blank_cap (c_lit "Dummy Loopback Device") 1.
Definition v4l2loopback_000 : v4l2_capability :=
  blank_cap (c_lit "v4l2loopback-000") 1.
Definition nekocam : v4l2_capability :=
  blank_cap (c_lit "NekoCam Virtual Camera") 1.
Definition uvc_webcam : v4l2_capability :=
  blank_cap (c_lit "USB2.0 HD UVC WebCam") 1.
Definition stale_loopback : v4l2_capability :=
  blank_cap (c_lit "A" ++ x00 :: c_lit "Loopback") 1.
Definition stale_nekocam : v4l2_capability :=
  blank_cap (c_lit "A" ++ x00 :: c_lit "NekoCam") 1.

(** Memory after [kernel_with cap] has answered a query at address 100 of an
    empty heap. *)
Definition answered (cap : v4l2_capability) : gmap Z object :=
  <[100 := Capability cap]> ∅.

(** The process once [f] has been resolved and has left memory [m]. *)
Definition resolved (f : ioctl_fn) (m : gmap Z object) : process :=
  {| real_ioctl := Some f; mem := m |}.

(** ** Vocabulary of the properties *)

Section Vocabulary.
Context {V : videodev2}.

(** Every bit of the output mask is set in the 32-bit field [new]. *)
Definition output_bits_set (new : Z) : Prop :=
  forall i, 0 <= i < 32 ->
    Z.testbit V4L2_CAP_VIDEO_OUTPUT i = true -> Z.testbit new i = true.

(** Every bit outside the output mask has in [new] the value it had in [old]. *)
Definition other_bits_kept (old new : Z) : Prop :=
  forall i, 0 <= i < 32 ->
    Z.testbit V4L2_CAP_VIDEO_OUTPUT i = false -> Z.testbit new i = Z.testbit old i.

(** The reading of the positive cases in which the marker may stand anywhere
    in the card buffer: a successful capability query whose record has
    [marker] somewhere among the bytes of [card] comes back with the output
    mask set in both fields. *)
Definition marker_in_buffer_patched (marker : list byte)
    (next : option ioctl_fn) (fd arg : Z) (p : process)
    (f : ioctl_fn) (m1 : gmap Z object) (cap : v4l2_capability) : Prop :=
  real_ioctl (init_real_ioctl next p) = Some f ->
  f fd VIDIOC_QUERYCAP arg (mem p) = (0, m1) ->
  m1 !! arg = Some (Capability cap) ->
  occurs_in marker (card cap) ->
  exists p' cap',
    ioctl next fd VIDIOC_QUERYCAP arg p = Ok (0, p')
    /\ mem p' !! arg = Some (Capability cap')
    /\ output_bits_set (capabilities cap')
    /\ output_bits_set (device_caps cap').

(** Number of calls of a run that find [real_ioctl] null on entry, that is,
    that execute the assignment of line 32. *)
Fixpoint null_entries (cs : list call) (p : process) : nat :=
  match cs with
  | [] => 0%nat
  | c :: cs' =>
      (match real_ioctl p with Some _ => 0 | None => 1 end
       + match step c p with
         | Ok (_, p1) => null_entries cs' p1
         | Undefined _ => 0
         end)%nat
  end.

End Vocabulary.

(** ** Further vocabulary *)

(** The first non-null answer in a sequence of loader answers. *)
Fixpoint first_answer (answers : list (option ioctl_fn)) : option ioctl_fn :=
  match answers with
  | [] => None
  | Some f :: _ => Some f
  | None :: rest => first_answer rest
  end.

(** One of the three markers of lines 57-59 occurs in [s]. *)
Definition has_marker (s : list byte) : Prop :=
  occurs_in (c_lit "Loopback") s \/ occurs_in (c_lit "NekoCam") s
    \/ occurs_in (c_lit "loopback") s.

(** No bit that is set in the 32-bit field [old] is clear in [new]. *)
Definition no_bit_cleared (old new : Z) : Prop :=
  forall i, 0 <= i < 32 -> Z.testbit old i = true -> Z.testbit new i = true.

Definition output_capable : v4l2_capability :=
  blank_cap (c_lit "v4l2loopback-000") 3.
Definition query_at_100 (answer : option ioctl_fn) : call :=
  {| c_setup := fun m => m; c_dlsym := answer; c_fd := 7;
     c_request := 0x80685600; c_arg := 100 |}.

(** * Properties *)

(** ** Strings *)

Lemma has_prefix_true (needle s : list byte) :
  has_prefix needle s = true <-> exists post, s = needle ++ post.
Proof.
  revert s; induction needle as [|n needle IH]; intros s; simpl.
  - split; [intros _; exists s; reflexivity | reflexivity].
  - destruct s as [|c s]; simpl.
    + split; [discriminate | intros [post Hpost]; discriminate].
    + rewrite andb_true_iff, IH. split.
      * intros [Hnc [post ->]]. apply Byte.byte_dec_bl in Hnc as ->.
        exists post; reflexivity.
      * intros [post Hpost]. injection Hpost as -> ->.
        split; [apply Byte.byte_dec_lb; reflexivity | exists post; reflexivity].
Qed.

Lemma find_found (s needle : list byte) :
  find s needle <> None <-> occurs_in needle s.
Proof.
  induction s as [|c s IH]; simpl.
  - destruct (has_prefix needle []) eqn:Hp.
    + split; [intros _ | discriminate].
      apply has_prefix_true in Hp as [post Hpost].
      exists [], post; exact Hpost.
    + split; [congruence |].
      intros (pre & post & Heq).
      destruct pre; [| discriminate].
      assert (has_prefix needle [] = true) as Hp'
        by (apply has_prefix_true; exists post; exact Heq).
      congruence.
  - destruct (has_prefix needle (c :: s)) eqn:Hp.
    + split; [intros _ | discriminate].
      apply has_prefix_true in Hp as [post Hpost].
      exists [], post; exact Hpost.
    + split.
      * intros Hf. destruct (find s needle) eqn:Hfs; [| contradiction].
        destruct IH as [IH _].
        destruct IH as (pre & post & ->); [discriminate |].
        exists (c :: pre), post; reflexivity.
      * intros (pre & post & Heq). destruct pre as [|c' pre].
        -- assert (has_prefix needle (c :: s) = true) as Hp'
             by (apply has_prefix_true; exists post; exact Heq).
           congruence.
        -- injection Heq as -> ->.
           destruct IH as [_ IH].
           destruct (find (pre ++ needle ++ post) needle) eqn:Hfs;
             [discriminate |].
           exfalso; apply IH; [exists pre, post; reflexivity | reflexivity].
Qed.

Lemma strstr_string (buf s needle : list byte) :
  c_str buf = Some s -> strstr buf needle = Ok (find s needle).
Proof. intros Hs; unfold strstr; rewrite Hs; reflexivity. Qed.

(** The string in a buffer is a prefix of the buffer, so whatever occurs in
    the string occurs in the buffer; the converse fails. *)
Lemma c_str_prefix (buf s : list byte) :
  c_str buf = Some s -> exists rest, buf = s ++ x00 :: rest.
Proof.
  revert s; induction buf as [|b buf IH]; intros s; simpl; [discriminate |].
  destruct (Byte.eqb b x00) eqn:Hb.
  - intros [= <-]. apply Byte.byte_dec_bl in Hb as ->. exists buf; reflexivity.
  - destruct (c_str buf) as [s'|]; simpl; [| discriminate].
    intros [= <-]. destruct (IH s' eq_refl) as [rest ->].
    exists rest; reflexivity.
Qed.

Lemma occurs_in_string_buffer (marker buf s : list byte) :
  c_str buf = Some s -> occurs_in marker s -> occurs_in marker buf.
Proof.
  intros Hs (pre & post & ->).
  destruct (c_str_prefix _ _ Hs) as [rest ->].
  exists pre, (post ++ x00 :: rest). rewrite <- !app_assoc. reflexivity.
Qed.

(** ** Bit arithmetic *)

Lemma or_u32_testbit (a b i : Z) :
  0 <= i < 32 -> Z.testbit (or_u32 a b) i = Z.testbit a i || Z.testbit b i.
Proof.
  intros Hi. unfold or_u32, u32.
  rewrite Z.mod_pow2_bits_low by lia. apply Z.lor_spec.
Qed.

Lemma lor_u32 (a b : Z) : is_u32 a -> is_u32 b -> is_u32 (Z.lor a b).
Proof.
  unfold is_u32. intros [Ha Ha'] [Hb Hb']. split.
  - apply Z.lor_nonneg; split; assumption.
  - destruct (Z.eq_dec (Z.lor a b) 0) as [-> | Hnz]; [reflexivity |].
    assert (0 < Z.lor a b) as Hpos
      by (pose proof (proj2 (Z.lor_nonneg a b) (conj Ha Hb)); lia).
    apply Z.log2_lt_pow2; [exact Hpos |].
    rewrite Z.log2_lor by assumption.
    apply Z.max_lub_lt.
    + destruct (Z.eq_dec a 0) as [-> | ?]; [reflexivity |].
      apply Z.log2_lt_pow2; lia.
    + destruct (Z.eq_dec b 0) as [-> | ?]; [reflexivity |].
      apply Z.log2_lt_pow2; lia.
Qed.

Lemma or_u32_exact (a b : Z) : is_u32 a -> is_u32 b -> or_u32 a b = Z.lor a b.
Proof.
  intros Ha Hb. unfold or_u32, u32.
  apply Z.mod_small. apply lor_u32; assumption.
Qed.

Lemma or_u32_idem (a b : Z) : or_u32 (or_u32 a b) b = or_u32 a b.
Proof.
  apply Z.bits_inj'. intros i Hi.
  destruct (Z_lt_ge_dec i 32) as [Hlt | Hge].
  - rewrite !or_u32_testbit by lia. destruct (Z.testbit a i), (Z.testbit b i); reflexivity.
  - unfold or_u32, u32. rewrite !Z.mod_pow2_bits_high by lia. reflexivity.
Qed.

Lemma has_cap_testbit (field mask : Z) :
  has_cap field mask <->
  forall i, 0 <= i -> Z.testbit mask i = true -> Z.testbit field i = true.
Proof.
  unfold has_cap. split.
  - intros Hl i Hi Hm. rewrite <- Hl, Z.land_spec in Hm.
    apply andb_true_iff in Hm as [Hf _]. exact Hf.
  - intros Hb. apply Z.bits_inj'. intros i Hi. rewrite Z.land_spec.
    destruct (Z.testbit mask i) eqn:Hm.
    + rewrite (Hb i Hi Hm). reflexivity.
    + apply andb_false_r.
Qed.

(** ** The shim, step by step *)

Section Steps.
Context {V : videodev2}.

Lemma init_real_ioctl_mem (d : option ioctl_fn) (p : process) :
  mem (init_real_ioctl d p) = mem p.
Proof. unfold init_real_ioctl. destruct (real_ioctl p); reflexivity. Qed.

Lemma init_real_ioctl_resolved (d : option ioctl_fn) (p : process) (f : ioctl_fn) :
  real_ioctl p = Some f -> init_real_ioctl d p = p.
Proof. intros Hf. unfold init_real_ioctl. rewrite Hf. reflexivity. Qed.

Lemma init_real_ioctl_null (d : option ioctl_fn) (p : process) :
  real_ioctl p = None -> init_real_ioctl d p = {| real_ioctl := d; mem := mem p |}.
Proof. intros Hf. unfold init_real_ioctl. rewrite Hf. reflexivity. Qed.

(** Once the pointer is known to be [f] after line 42, the call is [forward f]. *)
Lemma ioctl_forward (next : option ioctl_fn) (fd request arg : Z) (p : process)
    (f : ioctl_fn) :
  real_ioctl (init_real_ioctl next p) = Some f ->
  ioctl next fd request arg p =
    '(ret, m') ← forward f fd request arg (mem p);
    Ok (ret, {| real_ioctl := Some f; mem := m' |}).
Proof.
  intros Hf. unfold ioctl. rewrite Hf, init_real_ioctl_mem. reflexivity.
Qed.

Lemma forward_untouched (f : ioctl_fn) (fd request arg : Z) (m m1 : gmap Z object)
    (ret : Z) :
  f fd request arg m = (ret, m1) ->
  (ret =? 0) && (request =? VIDIOC_QUERYCAP) = false ->
  forward f fd request arg m = Ok (ret, m1).
Proof. intros Hf Hc. unfold forward. rewrite Hf, Hc. reflexivity. Qed.

Lemma forward_querycap (f : ioctl_fn) (fd arg : Z) (m m1 : gmap Z object) :
  f fd VIDIOC_QUERYCAP arg m = (0, m1) ->
  forward f fd VIDIOC_QUERYCAP arg m = m2 ← querycap_fixup arg m1; Ok (0, m2).
Proof.
  intros Hf. unfold forward. rewrite Hf, (Z.eqb_refl VIDIOC_QUERYCAP). reflexivity.
Qed.

(** The shim is invisible whenever the guard of line 52 is false. *)
Lemma ioctl_untouched (next : option ioctl_fn) (fd request arg : Z) (p : process)
    (f : ioctl_fn) (ret : Z) (m1 : gmap Z object) :
  real_ioctl (init_real_ioctl next p) = Some f ->
  f fd request arg (mem p) = (ret, m1) ->
  (ret =? 0) && (request =? VIDIOC_QUERYCAP) = false ->
  ioctl next fd request arg p = Ok (ret, {| real_ioctl := Some f; mem := m1 |}).
Proof.
  intros Hres Hf Hc.
  rewrite (ioctl_forward _ _ _ _ _ _ Hres), (forward_untouched _ _ _ _ _ _ _ Hf Hc).
  reflexivity.
Qed.

(** The heuristic reads nothing but the card buffer. *)
Lemma looks_like_loopback_card (cap cap' : v4l2_capability) :
  card cap = card cap' -> looks_like_loopback cap = looks_like_loopback cap'.
Proof. intros Hc. unfold looks_like_loopback. rewrite Hc. reflexivity. Qed.

Lemma looks_like_loopback_string (cap : v4l2_capability) (s : list byte) :
  c_str (card cap) = Some s ->
  looks_like_loopback cap =
    Ok (bool_decide (find s (c_lit "Loopback") <> None)
        || bool_decide (find s (c_lit "NekoCam") <> None)
        || bool_decide (find s (c_lit "loopback") <> None)).
Proof.
  intros Hs. unfold looks_like_loopback.
  rewrite !(strstr_string _ _ _ Hs). simpl.
  destruct (bool_decide (find s (c_lit "Loopback") <> None)); [reflexivity |].
  destruct (bool_decide (find s (c_lit "NekoCam") <> None)); reflexivity.
Qed.

Lemma looks_like_loopback_hit (cap : v4l2_capability) (s : list byte) :
  c_str (card cap) = Some s ->
  occurs_in (c_lit "Loopback") s \/ occurs_in (c_lit "NekoCam") s
    \/ occurs_in (c_lit "loopback") s ->
  looks_like_loopback cap = Ok true.
Proof.
  intros Hs Hocc. rewrite (looks_like_loopback_string _ _ Hs). f_equal.
  rewrite !orb_true_iff, !bool_decide_eq_true, !find_found. tauto.
Qed.

Lemma looks_like_loopback_miss (cap : v4l2_capability) (s : list byte) :
  c_str (card cap) = Some s ->
  ~ occurs_in (c_lit "Loopback") s -> ~ occurs_in (c_lit "NekoCam") s ->
  ~ occurs_in (c_lit "loopback") s ->
  looks_like_loopback cap = Ok false.
Proof.
  intros Hs H1 H2 H3. rewrite (looks_like_loopback_string _ _ Hs). f_equal.
  rewrite !orb_false_iff, !bool_decide_eq_false, !find_found. tauto.
Qed.

Lemma looks_like_loopback_defined (cap : v4l2_capability) (s : list byte) :
  c_str (card cap) = Some s -> exists hit, looks_like_loopback cap = Ok hit.
Proof. intros Hs. rewrite (looks_like_loopback_string _ _ Hs). eauto. Qed.

Lemma querycap_fixup_hit (arg : Z) (m : gmap Z object) (cap : v4l2_capability) :
  m !! arg = Some (Capability cap) ->
  looks_like_loopback cap = Ok true ->
  querycap_fixup arg m = Ok (<[arg := Capability (add_video_output cap)]> m).
Proof. intros Hm Hl. unfold querycap_fixup. rewrite Hm, Hl. reflexivity. Qed.

Lemma querycap_fixup_miss (arg : Z) (m : gmap Z object) (cap : v4l2_capability) :
  m !! arg = Some (Capability cap) ->
  looks_like_loopback cap = Ok false ->
  querycap_fixup arg m = Ok m.
Proof. intros Hm Hl. unfold querycap_fixup. rewrite Hm, Hl. reflexivity. Qed.

(** What lines 62-63 do to each field of the record. *)
Lemma add_video_output_fields (cap : v4l2_capability) :
  capabilities (add_video_output cap) = or_u32 (capabilities cap) V4L2_CAP_VIDEO_OUTPUT
  /\ device_caps (add_video_output cap) = or_u32 (device_caps cap) V4L2_CAP_VIDEO_OUTPUT
  /\ driver (add_video_output cap) = driver cap
  /\ card (add_video_output cap) = card cap
  /\ bus_info (add_video_output cap) = bus_info cap
  /\ version (add_video_output cap) = version cap
  /\ reserved (add_video_output cap) = reserved cap.
Proof. repeat split. Qed.

Lemma add_video_output_idem (cap : v4l2_capability) :
  add_video_output (add_video_output cap) = add_video_output cap.
Proof.
  unfold add_video_output, set_device_caps, set_capabilities; simpl.
  rewrite !or_u32_idem. reflexivity.
Qed.

(** A successful capability query on a matching record: the whole call. *)
Lemma ioctl_querycap_hit (next : option ioctl_fn) (fd arg : Z) (p : process)
    (f : ioctl_fn) (m1 : gmap Z object) (cap : v4l2_capability) :
  real_ioctl (init_real_ioctl next p) = Some f ->
  f fd VIDIOC_QUERYCAP arg (mem p) = (0, m1) ->
  m1 !! arg = Some (Capability cap) ->
  looks_like_loopback cap = Ok true ->
  ioctl next fd VIDIOC_QUERYCAP arg p =
    Ok (0, {| real_ioctl := Some f;
              mem := <[arg := Capability (add_video_output cap)]> m1 |}).
Proof.
  intros Hres Hf Hm Hl.
  rewrite (ioctl_forward _ _ _ _ _ _ Hres), (forward_querycap _ _ _ _ _ Hf),
    (querycap_fixup_hit _ _ _ Hm Hl).
  reflexivity.
Qed.

Lemma ioctl_querycap_miss (next : option ioctl_fn) (fd arg : Z) (p : process)
    (f : ioctl_fn) (m1 : gmap Z object) (cap : v4l2_capability) :
  real_ioctl (init_real_ioctl next p) = Some f ->
  f fd VIDIOC_QUERYCAP arg (mem p) = (0, m1) ->
  m1 !! arg = Some (Capability cap) ->
  looks_like_loopback cap = Ok false ->
  ioctl next fd VIDIOC_QUERYCAP arg p = Ok (0, {| real_ioctl := Some f; mem := m1 |}).
Proof.
  intros Hres Hf Hm Hl.
  rewrite (ioctl_forward _ _ _ _ _ _ Hres), (forward_querycap _ _ _ _ _ Hf),
    (querycap_fixup_miss _ _ _ Hm Hl).
  reflexivity.
Qed.

End Steps.

(** ** Pass-through paths *)

Section Transparency.
Context {V : videodev2}.

(** C2.  For a request code other than [VIDIOC_QUERYCAP], whatever the
    descriptor and the argument, the shim returns the status of the real
    implementation and leaves memory exactly as the real implementation
    left it. *)
Theorem other_requests_transparent (next : option ioctl_fn) (fd request arg : Z)
    (p : process) (f : ioctl_fn) :
  real_ioctl (init_real_ioctl next p) = Some f ->
  request <> VIDIOC_QUERYCAP ->
  ioctl next fd request arg p =
    Ok (fst (f fd request arg (mem p)),
        {| real_ioctl := Some f; mem := snd (f fd request arg (mem p)) |}).
Proof.
  intros Hres Hreq.
  destruct (f fd request arg (mem p)) as [ret m1] eqn:Hf; simpl.
  apply ioctl_untouched; [exact Hres | exact Hf |].
  apply andb_false_iff; right. apply Z.eqb_neq; exact Hreq.
Qed.

(** C3.  When the real implementation answers a capability query with a
    negative status, the shim returns that status and the memory the real
    implementation left, so the caller's record is untouched. *)
Theorem failed_querycap_untouched (next : option ioctl_fn) (fd arg : Z)
    (p : process) (f : ioctl_fn) (ret : Z) (m1 : gmap Z object) :
  real_ioctl (init_real_ioctl next p) = Some f ->
  f fd VIDIOC_QUERYCAP arg (mem p) = (ret, m1) ->
  ret < 0 ->
  ioctl next fd VIDIOC_QUERYCAP arg p = Ok (ret, {| real_ioctl := Some f; mem := m1 |})
  /\ forall p', ioctl next fd VIDIOC_QUERYCAP arg p = Ok (ret, p') ->
       mem p' !! arg = m1 !! arg.
Proof.
  intros Hres Hf Hneg.
  assert (ioctl next fd VIDIOC_QUERYCAP arg p
          = Ok (ret, {| real_ioctl := Some f; mem := m1 |})) as Hio.
  { apply ioctl_untouched; [exact Hres | exact Hf |].
    apply andb_false_iff; left. apply Z.eqb_neq; lia. }
  split; [exact Hio |].
  intros p' Hp'. rewrite Hio in Hp'. injection Hp' as <-. reflexivity.
Qed.

(** C9.  The record is patched only on status 0: for any other status,
    positive ones included, the shim hands back the status and the memory
    of the real implementation; and whenever the memory it hands back
    differs from that, the status was 0 and the request a capability query. *)
Theorem nonzero_status_untouched (next : option ioctl_fn) (fd request arg : Z)
    (p : process) (f : ioctl_fn) (ret : Z) (m1 : gmap Z object) :
  real_ioctl (init_real_ioctl next p) = Some f ->
  f fd request arg (mem p) = (ret, m1) ->
  (ret <> 0 ->
   ioctl next fd request arg p = Ok (ret, {| real_ioctl := Some f; mem := m1 |}))
  /\ (forall r p', ioctl next fd request arg p = Ok (r, p') -> mem p' <> m1 ->
        ret = 0 /\ request = VIDIOC_QUERYCAP).
Proof.
  intros Hres Hf. split.
  - intros Hnz. apply ioctl_untouched; [exact Hres | exact Hf |].
    apply andb_false_iff; left. apply Z.eqb_neq; exact Hnz.
  - intros r p' Hio Hdiff.
    destruct ((ret =? 0) && (request =? VIDIOC_QUERYCAP)) eqn:Hc.
    + apply andb_true_iff in Hc as [Hr Hq].
      split; [apply Z.eqb_eq, Hr | apply Z.eqb_eq, Hq].
    + rewrite (ioctl_untouched _ _ _ _ _ _ _ _ Hres Hf Hc) in Hio.
      injection Hio as _ <-. contradiction Hdiff; reflexivity.
Qed.

(** C6.  Whatever path is taken, a status returned by the shim is the
    status the real implementation returned for this call; and the shim
    does return it whenever the capability-query path finds a record whose
    card holds a string. *)
Theorem status_is_delegate_status (next : option ioctl_fn) (fd request arg : Z)
    (p : process) (f : ioctl_fn) (ret : Z) (m1 : gmap Z object) :
  real_ioctl (init_real_ioctl next p) = Some f ->
  f fd request arg (mem p) = (ret, m1) ->
  (forall r p', ioctl next fd request arg p = Ok (r, p') -> r = ret)
  /\ ((ret = 0 -> request = VIDIOC_QUERYCAP ->
       exists cap s, m1 !! arg = Some (Capability cap) /\ c_str (card cap) = Some s) ->
      exists p', ioctl next fd request arg p = Ok (ret, p')).
Proof.
  intros Hres Hf.
  rewrite (ioctl_forward _ _ _ _ _ _ Hres). unfold forward. rewrite Hf.
  destruct ((ret =? 0) && (request =? VIDIOC_QUERYCAP)) eqn:Hc.
  - apply andb_true_iff in Hc as [Hr Hq].
    apply Z.eqb_eq in Hr, Hq. split.
    + intros r p'. destruct (querycap_fixup arg m1) as [m2|]; simpl; [| discriminate].
      intros [= <- _]. reflexivity.
    + intros Hdef. destruct (Hdef Hr Hq) as (cap & s & Hm & Hs).
      destruct (looks_like_loopback_defined _ _ Hs) as [[|] Hl].
      * rewrite (querycap_fixup_hit _ _ _ Hm Hl). simpl. eauto.
      * rewrite (querycap_fixup_miss _ _ _ Hm Hl). simpl. eauto.
  - simpl. split.
    + intros r p' [= <- _]. reflexivity.
    + intros _. eauto.
Qed.

(** C8.  With the pointer null and the loader unable to find the real
    implementation, the pointer stays null, and every invocation, whatever
    its arguments, reaches the call of line 49 through the null pointer: no
    check stands in between.  This is the only way to that fault. *)
Theorem unresolved_delegate_is_called (p : process) :
  real_ioctl p = None ->
  real_ioctl (init_real_ioctl None p) = None
  /\ (forall fd request arg, ioctl None fd request arg p = Undefined NullCall)
  /\ (forall c cs, c_dlsym c = None -> run (c :: cs) p = Undefined NullCall)
  /\ (forall next fd request arg q,
        ioctl next fd request arg q = Undefined NullCall <->
        real_ioctl (init_real_ioctl next q) = None).
Proof.
  intros Hnull.
  assert (forall m, real_ioctl (init_real_ioctl None {| real_ioctl := real_ioctl p; mem := m |}) = None) as Hstay.
  { intros m. unfold init_real_ioctl; simpl. rewrite Hnull. reflexivity. }
  repeat split.
  - unfold init_real_ioctl. rewrite Hnull. reflexivity.
  - intros fd request arg. unfold ioctl, init_real_ioctl. rewrite Hnull. reflexivity.
  - intros c cs Hc. simpl. unfold step, ioctl. rewrite Hc, Hstay. reflexivity.
  - unfold ioctl. destruct (real_ioctl (init_real_ioctl next q)) as [g|]; [| reflexivity].
    intros Hbad. exfalso.
    unfold forward in Hbad.
    destruct (g fd request arg (mem (init_real_ioctl next q))) as [ret m1].
    destruct ((ret =? 0) && (request =? VIDIOC_QUERYCAP)); [| discriminate].
    unfold querycap_fixup in Hbad.
    destruct (m1 !! arg) as [[cap|bs]|]; try discriminate.
    unfold looks_like_loopback, strstr in Hbad.
    destruct (c_str (card cap)); simpl in Hbad; [| discriminate].
    repeat (match type of Hbad with
            | context [bool_decide ?P] => destruct (bool_decide P); simpl in Hbad
            end); discriminate.
  - unfold ioctl. intros ->. reflexivity.
Qed.

End Transparency.

(** ** The patched record *)

Section Mutation.
Context {V : videodev2}.

Lemma or_u32_sets_output (old : Z) :
  output_bits_set (or_u32 old V4L2_CAP_VIDEO_OUTPUT).
Proof.
  intros i Hi Hbit. rewrite or_u32_testbit by exact Hi.
  rewrite Hbit. apply orb_true_r.
Qed.

Lemma or_u32_keeps_others (old : Z) :
  other_bits_kept old (or_u32 old V4L2_CAP_VIDEO_OUTPUT).
Proof.
  intros i Hi Hbit. rewrite or_u32_testbit by exact Hi.
  rewrite Hbit. apply orb_false_r.
Qed.

(** A successful capability query whose card string holds one of the three
    markers: the call returns 0 and the record behind [arg] has the output
    mask or-ed into both fields. *)
Lemma marker_in_string_patched (next : option ioctl_fn) (fd arg : Z) (p : process)
    (f : ioctl_fn) (m1 : gmap Z object) (cap : v4l2_capability) (s : list byte) :
  real_ioctl (init_real_ioctl next p) = Some f ->
  f fd VIDIOC_QUERYCAP arg (mem p) = (0, m1) ->
  m1 !! arg = Some (Capability cap) ->
  c_str (card cap) = Some s ->
  occurs_in (c_lit "Loopback") s \/ occurs_in (c_lit "NekoCam") s
    \/ occurs_in (c_lit "loopback") s ->
  exists cap',
    ioctl next fd VIDIOC_QUERYCAP arg p =
      Ok (0, {| real_ioctl := Some f; mem := <[arg := Capability cap']> m1 |})
    /\ output_bits_set (capabilities cap')
    /\ output_bits_set (device_caps cap')
    /\ other_bits_kept (capabilities cap) (capabilities cap')
    /\ other_bits_kept (device_caps cap) (device_caps cap').
Proof.
  intros Hres Hf Hm Hs Hocc.
  exists (add_video_output cap). split.
  - apply (ioctl_querycap_hit _ _ _ _ _ _ _ Hres Hf Hm).
    exact (looks_like_loopback_hit _ _ Hs Hocc).
  - simpl. auto using or_u32_sets_output, or_u32_keeps_others.
Qed.

(** C1 (amended).  A successful capability query whose card buffer holds a
    NUL-terminated string containing "Loopback": the shim returns 0, the
    output mask is set in [capabilities] and in [device_caps], and every
    other bit of the two fields is as the real implementation left it. *)
Theorem loopback_string_sets_output (next : option ioctl_fn) (fd arg : Z)
    (p : process) (f : ioctl_fn) (m1 : gmap Z object) (cap : v4l2_capability)
    (s : list byte) :
  real_ioctl (init_real_ioctl next p) = Some f ->
  f fd VIDIOC_QUERYCAP arg (mem p) = (0, m1) ->
  m1 !! arg = Some (Capability cap) ->
  c_str (card cap) = Some s ->
  occurs_in (c_lit "Loopback") s ->
  exists cap',
    ioctl next fd VIDIOC_QUERYCAP arg p =
      Ok (0, {| real_ioctl := Some f; mem := <[arg := Capability cap']> m1 |})
    /\ output_bits_set (capabilities cap')
    /\ output_bits_set (device_caps cap')
    /\ other_bits_kept (capabilities cap) (capabilities cap')
    /\ other_bits_kept (device_caps cap) (device_caps cap').
Proof.
  intros Hres Hf Hm Hs Hocc.
  apply (marker_in_string_patched _ _ _ _ _ _ _ _ Hres Hf Hm Hs).
  left; exact Hocc.
Qed.

(** C4 (amended).  For a successful capability query whose card buffer
    holds the NUL-terminated string [s]: if [s] contains "NekoCam" or
    "loopback" the output mask is set in both fields; if [s] is
    "USB2.0 HD UVC WebCam" memory is exactly what the real implementation
    produced. *)
Theorem card_name_variants (next : option ioctl_fn) (fd arg : Z)
    (p : process) (f : ioctl_fn) (m1 : gmap Z object) (cap : v4l2_capability)
    (s : list byte) :
  real_ioctl (init_real_ioctl next p) = Some f ->
  f fd VIDIOC_QUERYCAP arg (mem p) = (0, m1) ->
  m1 !! arg = Some (Capability cap) ->
  c_str (card cap) = Some s ->
  (occurs_in (c_lit "NekoCam") s \/ occurs_in (c_lit "loopback") s ->
   exists cap',
     ioctl next fd VIDIOC_QUERYCAP arg p =
       Ok (0, {| real_ioctl := Some f; mem := <[arg := Capability cap']> m1 |})
     /\ output_bits_set (capabilities cap')
     /\ output_bits_set (device_caps cap'))
  /\ (s = c_lit "USB2.0 HD UVC WebCam" ->
      ioctl next fd VIDIOC_QUERYCAP arg p =
        Ok (0, {| real_ioctl := Some f; mem := m1 |})).
Proof.
  intros Hres Hf Hm Hs. split.
  - intros Hocc.
    destruct (marker_in_string_patched _ _ _ _ _ _ _ _ Hres Hf Hm Hs)
      as (cap' & Hio & Hc & Hd & _); [tauto |].
    exists cap'. auto.
  - intros ->. apply (ioctl_querycap_miss _ _ _ _ _ _ _ Hres Hf Hm).
    rewrite (looks_like_loopback_string _ _ Hs). reflexivity.
Qed.

(** C5.  On a matching record the new value of each bitmask field is the old
    one or-ed with the output mask; a capture capability present in
    [capabilities] before is present afterwards together with the output
    capability; and no bit that was set is cleared. *)
Theorem mutation_is_bitwise_or (next : option ioctl_fn) (fd arg : Z)
    (p : process) (f : ioctl_fn) (m1 : gmap Z object) (cap : v4l2_capability) :
  real_ioctl (init_real_ioctl next p) = Some f ->
  f fd VIDIOC_QUERYCAP arg (mem p) = (0, m1) ->
  m1 !! arg = Some (Capability cap) ->
  looks_like_loopback cap = Ok true ->
  is_u32 (capabilities cap) -> is_u32 (device_caps cap) ->
  is_u32 V4L2_CAP_VIDEO_OUTPUT ->
  exists cap',
    ioctl next fd VIDIOC_QUERYCAP arg p =
      Ok (0, {| real_ioctl := Some f; mem := <[arg := Capability cap']> m1 |})
    /\ capabilities cap' = Z.lor (capabilities cap) V4L2_CAP_VIDEO_OUTPUT
    /\ device_caps cap' = Z.lor (device_caps cap) V4L2_CAP_VIDEO_OUTPUT
    /\ (has_cap (capabilities cap) V4L2_CAP_VIDEO_CAPTURE ->
        has_cap (capabilities cap') V4L2_CAP_VIDEO_CAPTURE
        /\ has_cap (capabilities cap') V4L2_CAP_VIDEO_OUTPUT)
    /\ (forall i, Z.testbit (capabilities cap) i = true ->
          Z.testbit (capabilities cap') i = true)
    /\ (forall i, Z.testbit (device_caps cap) i = true ->
          Z.testbit (device_caps cap') i = true).
Proof.
  intros Hres Hf Hm Hl Hc Hd Ho.
  exists (add_video_output cap).
  split; [exact (ioctl_querycap_hit _ _ _ _ _ _ _ Hres Hf Hm Hl) |].
  simpl. rewrite !or_u32_exact by assumption.
  assert (forall a i, Z.testbit a i = true ->
            Z.testbit (Z.lor a V4L2_CAP_VIDEO_OUTPUT) i = true) as Hkeep.
  { intros a i Ha. rewrite Z.lor_spec, Ha. reflexivity. }
  repeat split; auto.
  - apply has_cap_testbit. intros i Hi Hbit.
    apply Hkeep. revert i Hi Hbit. apply has_cap_testbit. assumption.
  - apply has_cap_testbit. intros i Hi Hbit.
    rewrite Z.lor_spec, Hbit. apply orb_true_r.
Qed.

(** C10.  The match-and-patch step is idempotent: running it on its own
    result changes nothing more, so the two bitmask fields after two
    applications are those after one. *)
Theorem querycap_fixup_idempotent (arg : Z) (m : gmap Z object) :
  (m' ← querycap_fixup arg m; querycap_fixup arg m') = querycap_fixup arg m.
Proof.
  unfold querycap_fixup at 2 3.
  destruct (m !! arg) as [[cap|bs]|] eqn:Hm; try reflexivity.
  destruct (looks_like_loopback cap) as [[|]|] eqn:Hl; simpl; try reflexivity.
  - rewrite (querycap_fixup_hit arg _ (add_video_output cap)).
    + rewrite add_video_output_idem, insert_insert_eq. reflexivity.
    + apply lookup_insert_eq.
    + rewrite <- Hl. apply looks_like_loopback_card. reflexivity.
  - apply (querycap_fixup_miss _ _ _ Hm Hl).
Qed.

End Mutation.

(** ** The delegate pointer over the lifetime of a process *)

Section WriteOnce.
Context {V : videodev2}.

Lemma ioctl_returns_resolved (next : option ioctl_fn) (fd request arg : Z)
    (p p' : process) (r : Z) :
  ioctl next fd request arg p = Ok (r, p') ->
  exists f, real_ioctl (init_real_ioctl next p) = Some f /\ real_ioctl p' = Some f.
Proof.
  unfold ioctl.
  destruct (real_ioctl (init_real_ioctl next p)) as [f|]; [| discriminate].
  destruct (forward f fd request arg (mem (init_real_ioctl next p))) as [[ret m']|];
    simpl; [| discriminate].
  intros [= _ <-]. exists f. split; reflexivity.
Qed.

Lemma step_resolved (c : call) (p : process) (f : ioctl_fn) :
  real_ioctl p = Some f ->
  step c p = '(r, m') ← step_via f c (mem p);
             Ok (r, {| real_ioctl := Some f; mem := m' |}).
Proof.
  intros Hf. unfold step, step_via.
  apply ioctl_forward. unfold init_real_ioctl; simpl. rewrite Hf. reflexivity.
Qed.

Lemma run_resolved (cs : list call) (p : process) (f : ioctl_fn) :
  real_ioctl p = Some f ->
  run cs p = '(rs, m') ← run_via f cs (mem p);
             Ok (rs, {| real_ioctl := Some f; mem := m' |}).
Proof.
  revert p; induction cs as [|c cs IH]; intros p Hf; simpl.
  - destruct p as [h m]; simpl in *. rewrite Hf. reflexivity.
  - rewrite (step_resolved c p f Hf).
    destruct (step_via f c (mem p)) as [[r m1]|]; simpl; [| reflexivity].
    rewrite (IH {| real_ioctl := Some f; mem := m1 |} eq_refl); simpl.
    destruct (run_via f cs m1) as [[rs m2]|]; reflexivity.
Qed.

Lemma resolve_all_resolved (answers : list (option ioctl_fn)) (p : process)
    (f : ioctl_fn) :
  real_ioctl p = Some f -> resolve_all answers p = p.
Proof.
  intros Hf. unfold resolve_all.
  induction answers as [|a answers IH]; simpl; [reflexivity |].
  rewrite (init_real_ioctl_resolved a p f Hf). exact IH.
Qed.

Lemma null_entries_resolved (cs : list call) (p : process) (f : ioctl_fn) :
  real_ioctl p = Some f -> null_entries cs p = 0%nat.
Proof.
  revert p; induction cs as [|c cs IH]; intros p Hf; simpl; [reflexivity |].
  rewrite Hf, (step_resolved c p f Hf).
  destruct (step_via f c (mem p)) as [[r m1]|]; simpl; [| reflexivity].
  apply IH. reflexivity.
Qed.

(** C7.  The pointer starts null; [init_real_ioctl] stores the loader's
    answer when the pointer is null and does nothing otherwise; resolving
    any number of times after a non-null pointer is in place changes
    nothing; from then on every call of a run is served by that same
    delegate and leaves the pointer as it is; and in any run at most one
    call executes the assignment. *)
Theorem real_ioctl_write_once :
  (forall m, real_ioctl (start m) = None)
  /\ (forall d p, real_ioctl p = None -> real_ioctl (init_real_ioctl d p) = d)
  /\ (forall d p f, real_ioctl p = Some f -> init_real_ioctl d p = p)
  /\ (forall answers p f, real_ioctl p = Some f ->
        real_ioctl (resolve_all answers p) = Some f)
  /\ (forall cs p f, real_ioctl p = Some f ->
        run cs p = '(rs, m') ← run_via f cs (mem p);
                   Ok (rs, {| real_ioctl := Some f; mem := m' |}))
  /\ (forall cs p, (null_entries cs p <= 1)%nat).
Proof.
  split; [reflexivity |].
  split; [intros d p Hn; rewrite (init_real_ioctl_null d p Hn); reflexivity |].
  split; [exact init_real_ioctl_resolved |].
  split; [intros answers p f Hf; rewrite (resolve_all_resolved answers p f Hf); exact Hf |].
  split; [exact run_resolved |].
  intros [|c cs] p; simpl; [lia |].
  destruct (real_ioctl p) as [f|] eqn:Hp.
  - pose proof (null_entries_resolved (c :: cs) p f Hp) as H0.
    simpl in H0. rewrite Hp in H0. lia.
  - destruct (step c p) as [[r p1]|] eqn:Hstep; [| lia].
    apply ioctl_returns_resolved in Hstep as (f & _ & Hp1).
    rewrite (null_entries_resolved cs p1 f Hp1). lia.
Qed.

End WriteOnce.

(** ** Concrete runs on the Linux constants *)

#[local] Existing Instance linux_uapi.

(** The end-to-end scenario: descriptor 7, card "v4l2loopback-000", capture
    bit only; the shim returns 0 and both fields read capture-or-output. *)
Example end_to_end :
  ioctl (Some (kernel_with v4l2loopback_000)) 7 VIDIOC_QUERYCAP 100 (start ∅) =
    Ok (0, resolved (kernel_with v4l2loopback_000)
             (<[100 := Capability (blank_cap (c_lit "v4l2loopback-000") 3)]>
                (answered v4l2loopback_000))).
Proof. vm_compute. reflexivity. Qed.

(** An unmatched record on the capability-query path comes back as the
    real implementation left it. *)
Ltac run_unmatched cap :=
  apply (ioctl_querycap_miss (Some (kernel_with cap)) 7 100 (start ∅)
           (kernel_with cap) (answered cap) cap);
  [reflexivity | reflexivity | apply lookup_insert_eq | vm_compute; reflexivity].

(** A marker behind the terminator is in the buffer, yet the record is not
    patched: bit 1 of [capabilities] stays clear. *)
Ltac refute_marker_in_buffer cap pre post :=
  let H := fresh "H" in
  intros H;
  destruct H as (p' & cap' & Hio & Hlook & Hcaps & _);
  [reflexivity | reflexivity | apply lookup_insert_eq
  | exists pre, post; reflexivity |];
  assert (ioctl (Some (kernel_with cap)) 7 VIDIOC_QUERYCAP 100 (start ∅)
          = Ok (0, resolved (kernel_with cap) (answered cap))) as Hrun
    by run_unmatched cap;
  rewrite Hrun in Hio; injection Hio as <-;
  unfold resolved, answered in Hlook; simpl in Hlook;
  rewrite lookup_insert_eq in Hlook; injection Hlook as <-;
  specialize (Hcaps 1 ltac:(lia) eq_refl); discriminate Hcaps.

(** C1, counterexample.  The card buffer "A", NUL, "Loopback", NUL... holds
    the bytes of "Loopback", the query succeeds, and the shim returns the
    record unpatched. *)
Lemma stale_loopback_not_patched :
  ~ marker_in_buffer_patched (c_lit "Loopback")
      (Some (kernel_with stale_loopback)) 7 100 (start ∅)
      (kernel_with stale_loopback) (answered stale_loopback) stale_loopback.
Proof.
  refute_marker_in_buffer stale_loopback
    (c_lit "A" ++ [x00]) (repeat x00 22).
Qed.

(** C4, counterexample.  The same with "NekoCam" behind the terminator. *)
Lemma stale_nekocam_not_patched :
  ~ marker_in_buffer_patched (c_lit "NekoCam")
      (Some (kernel_with stale_nekocam)) 7 100 (start ∅)
      (kernel_with stale_nekocam) (answered stale_nekocam) stale_nekocam.
Proof.
  refute_marker_in_buffer stale_nekocam
    (c_lit "A" ++ [x00]) (repeat x00 23).
Qed.

(** C1, witness: card "Dummy Loopback Device". *)
Lemma loopback_string_sets_output_witness :
  exists cap',
    ioctl (Some (kernel_with dummy_loopback)) 7 VIDIOC_QUERYCAP 100 (start ∅) =
      Ok (0, {| real_ioctl := Some (kernel_with dummy_loopback);
                mem := <[100 := Capability cap']> (answered dummy_loopback) |})
    /\ output_bits_set (capabilities cap')
    /\ output_bits_set (device_caps cap')
    /\ other_bits_kept (capabilities dummy_loopback) (capabilities cap')
    /\ other_bits_kept (device_caps dummy_loopback) (device_caps cap').
Proof.
  apply (loopback_string_sets_output (Some (kernel_with dummy_loopback)) 7 100
           (start ∅) (kernel_with dummy_loopback) (answered dummy_loopback)
           dummy_loopback (c_lit "Dummy Loopback Device")).
  - reflexivity.
  - reflexivity.
  - vm_compute; reflexivity.
  - vm_compute; reflexivity.
  - exists (c_lit "Dummy "), (c_lit " Device"); reflexivity.
Defined.

(** C2, witness: a terminal request (0x5401) served by a delegate that
    succeeds and writes behind the argument. *)
Lemma other_requests_transparent_witness :
  ioctl (Some scribbler) 3 0x5401 100 (start ∅) =
    Ok (fst (scribbler 3 0x5401 100 ∅),
        {| real_ioctl := Some scribbler; mem := snd (scribbler 3 0x5401 100 ∅) |}).
Proof.
  apply (other_requests_transparent (Some scribbler) 3 0x5401 100 (start ∅) scribbler).
  - reflexivity.
  - vm_compute. discriminate.
Defined.

(** C3, witness: the query fails with -1 while a matching record lies
    behind the argument. *)
Lemma failed_querycap_untouched_witness :
  ioctl (Some (always (-1))) 7 VIDIOC_QUERYCAP 100 (start (answered dummy_loopback)) =
    Ok (-1, {| real_ioctl := Some (always (-1)); mem := answered dummy_loopback |})
  /\ forall p',
       ioctl (Some (always (-1))) 7 VIDIOC_QUERYCAP 100 (start (answered dummy_loopback))
         = Ok (-1, p') ->
       mem p' !! 100 = answered dummy_loopback !! 100.
Proof.
  apply (failed_querycap_untouched (Some (always (-1))) 7 100
           (start (answered dummy_loopback)) (always (-1)) (-1)
           (answered dummy_loopback)).
  - reflexivity.
  - reflexivity.
  - lia.
Defined.

(** C4, witness: a card "NekoCam Virtual Camera" and a card
    "USB2.0 HD UVC WebCam". *)
Lemma card_name_variants_witness :
  (exists cap',
     ioctl (Some (kernel_with nekocam)) 7 VIDIOC_QUERYCAP 100 (start ∅) =
       Ok (0, {| real_ioctl := Some (kernel_with nekocam);
                 mem := <[100 := Capability cap']> (answered nekocam) |})
     /\ output_bits_set (capabilities cap')
     /\ output_bits_set (device_caps cap'))
  /\ ioctl (Some (kernel_with uvc_webcam)) 7 VIDIOC_QUERYCAP 100 (start ∅) =
       Ok (0, {| real_ioctl := Some (kernel_with uvc_webcam);
                 mem := answered uvc_webcam |}).
Proof.
  split.
  - apply (card_name_variants (Some (kernel_with nekocam)) 7 100 (start ∅)
             (kernel_with nekocam) (answered nekocam) nekocam
             (c_lit "NekoCam Virtual Camera")).
    + reflexivity.
    + reflexivity.
    + vm_compute; reflexivity.
    + vm_compute; reflexivity.
    + left. exists [], (c_lit " Virtual Camera"); reflexivity.
  - apply (card_name_variants (Some (kernel_with uvc_webcam)) 7 100 (start ∅)
             (kernel_with uvc_webcam) (answered uvc_webcam) uvc_webcam
             (c_lit "USB2.0 HD UVC WebCam")).
    + reflexivity.
    + reflexivity.
    + vm_compute; reflexivity.
    + vm_compute; reflexivity.
    + reflexivity.
Defined.

(** C5, witness: card "v4l2loopback-000" with the capture bit only; both
    fields read 3 afterwards, capture and output together. *)
Lemma mutation_is_bitwise_or_witness :
  exists cap',
    ioctl (Some (kernel_with v4l2loopback_000)) 7 VIDIOC_QUERYCAP 100 (start ∅) =
      Ok (0, {| real_ioctl := Some (kernel_with v4l2loopback_000);
                mem := <[100 := Capability cap']> (answered v4l2loopback_000) |})
    /\ capabilities cap' = 3
    /\ device_caps cap' = 3
    /\ has_cap (capabilities cap') V4L2_CAP_VIDEO_CAPTURE
    /\ has_cap (capabilities cap') V4L2_CAP_VIDEO_OUTPUT.
Proof.
  destruct (mutation_is_bitwise_or (Some (kernel_with v4l2loopback_000)) 7 100
              (start ∅) (kernel_with v4l2loopback_000) (answered v4l2loopback_000)
              v4l2loopback_000)
    as (cap' & Hio & Hcaps & Hdev & Hboth & _).
  - reflexivity.
  - reflexivity.
  - vm_compute; reflexivity.
  - vm_compute; reflexivity.
  - vm_compute; split; [discriminate | reflexivity].
  - vm_compute; split; [discriminate | reflexivity].
  - vm_compute; split; [discriminate | reflexivity].
  - exists cap'. split; [exact Hio |].
    split; [exact Hcaps |]. split; [exact Hdev |].
    apply Hboth. reflexivity.
Defined.

(** C6, witness: the patching path, card "Dummy Loopback Device". *)
Lemma status_is_delegate_status_witness :
  (forall r p',
     ioctl (Some (kernel_with dummy_loopback)) 7 VIDIOC_QUERYCAP 100 (start ∅)
       = Ok (r, p') -> r = 0)
  /\ exists p',
       ioctl (Some (kernel_with dummy_loopback)) 7 VIDIOC_QUERYCAP 100 (start ∅)
         = Ok (0, p').
Proof.
  destruct (status_is_delegate_status (Some (kernel_with dummy_loopback)) 7
              VIDIOC_QUERYCAP 100 (start ∅) (kernel_with dummy_loopback) 0
              (answered dummy_loopback))
    as [Hstatus Hreturns].
  - reflexivity.
  - reflexivity.
  - split; [exact Hstatus |].
    apply Hreturns. intros _ _.
    exists dummy_loopback, (c_lit "Dummy Loopback Device").
    split; vm_compute; reflexivity.
Defined.

(** C8, witness: a fresh process whose loader finds nothing. *)
Lemma unresolved_delegate_is_called_witness :
  real_ioctl (init_real_ioctl None (start ∅)) = None
  /\ (forall fd request arg, ioctl None fd request arg (start ∅) = Undefined NullCall)
  /\ (forall c cs, c_dlsym c = None -> run (c :: cs) (start ∅) = Undefined NullCall)
  /\ (forall next fd request arg q,
        ioctl next fd request arg q = Undefined NullCall <->
        real_ioctl (init_real_ioctl next q) = None).
Proof.
  apply (unresolved_delegate_is_called (start ∅)).
  reflexivity.
Defined.

(** C9, witness: the query answers the positive status 1 while a matching
    record lies behind the argument. *)
Lemma nonzero_status_untouched_witness :
  ioctl (Some (always 1)) 7 VIDIOC_QUERYCAP 100 (start (answered dummy_loopback)) =
    Ok (1, {| real_ioctl := Some (always 1); mem := answered dummy_loopback |}).
Proof.
  apply (nonzero_status_untouched (Some (always 1)) 7 VIDIOC_QUERYCAP 100
           (start (answered dummy_loopback)) (always 1) 1 (answered dummy_loopback)).
  - reflexivity.
  - reflexivity.
  - lia.
Defined.

(** * Further properties of the shim *)

(** ** Strings in buffers *)

Lemma c_str_terminated (s rest : list byte) :
  Forall (fun b => b <> x00) s -> c_str (s ++ x00 :: rest) = Some s.
Proof.
  induction 1 as [|b s Hb _ IH]; simpl; [reflexivity |].
  destruct (Byte.eqb b x00) eqn:Hz.
  - apply Byte.byte_dec_bl in Hz. contradiction.
  - rewrite IH. reflexivity.
Qed.


Section Paths.
Context {V : videodev2}.

Lemma looks_like_loopback_inv (cap : v4l2_capability) (hit : bool) :
  looks_like_loopback cap = Ok hit ->
  exists s, c_str (card cap) = Some s /\ (hit = true <-> has_marker s).
Proof.
  destruct (c_str (card cap)) as [s|] eqn:Hs.
  - rewrite (looks_like_loopback_string _ _ Hs). intros [= <-].
    exists s. split; [reflexivity |]. unfold has_marker.
    rewrite !orb_true_iff, !bool_decide_eq_true, !find_found. tauto.
  - unfold looks_like_loopback, strstr. rewrite Hs. discriminate.
Qed.

(** The two ways lines 53-67 can complete. *)
Lemma querycap_fixup_inv (arg : Z) (m m2 : gmap Z object) :
  querycap_fixup arg m = Ok m2 ->
  exists cap, m !! arg = Some (Capability cap)
    /\ ((looks_like_loopback cap = Ok true
         /\ m2 = <[arg := Capability (add_video_output cap)]> m)
        \/ (looks_like_loopback cap = Ok false /\ m2 = m)).
Proof.
  unfold querycap_fixup.
  destruct (m !! arg) as [[cap|bs]|]; try discriminate.
  destruct (looks_like_loopback cap) as [[|]|] eqn:Hl; simpl; try discriminate;
    intros [= <-]; exists cap; split; [reflexivity | | reflexivity |].
  - left; split; [exact Hl | reflexivity].
  - right; split; [exact Hl | reflexivity].
Qed.

(** The two ways a call can return. *)
Lemma ioctl_inv (next : option ioctl_fn) (fd request arg : Z) (p p' : process)
    (f : ioctl_fn) (r ret : Z) (m1 : gmap Z object) :
  real_ioctl (init_real_ioctl next p) = Some f ->
  f fd request arg (mem p) = (ret, m1) ->
  ioctl next fd request arg p = Ok (r, p') ->
  r = ret /\ real_ioctl p' = Some f
  /\ (((ret =? 0) && (request =? VIDIOC_QUERYCAP) = false /\ mem p' = m1)
      \/ (ret = 0 /\ request = VIDIOC_QUERYCAP
          /\ querycap_fixup arg m1 = Ok (mem p'))).
Proof.
  intros Hres Hf. rewrite (ioctl_forward _ _ _ _ _ _ Hres).
  unfold forward. rewrite Hf.
  destruct ((ret =? 0) && (request =? VIDIOC_QUERYCAP)) eqn:Hc.
  - apply andb_true_iff in Hc as [Hr Hq]. apply Z.eqb_eq in Hr, Hq.
    destruct (querycap_fixup arg m1) as [m2|]; simpl; [| discriminate].
    intros [= <- <-]. simpl. auto 6.
  - simpl. intros [= <- <-]. simpl. auto.
Qed.

End Paths.

(** ** What the shim does and never does *)

Section Extras.
Context {V : videodev2}.

Lemma lor_absorbs (a mask : Z) : has_cap a mask -> Z.lor a mask = a.
Proof.
  intros Hm. apply Z.bits_inj'. intros i Hi. rewrite Z.lor_spec.
  destruct (Z.testbit mask i) eqn:Hb; [| apply orb_false_r].
  rewrite (proj1 (has_cap_testbit a mask) Hm i Hi Hb). reflexivity.
Qed.

(** X1.  A successful capability query whose card string holds none of the
    three markers: the shim returns 0 and memory is exactly what the real
    implementation left. *)
Theorem unmatched_record_untouched (next : option ioctl_fn) (fd arg : Z)
    (p : process) (f : ioctl_fn) (m1 : gmap Z object) (cap : v4l2_capability)
    (s : list byte) :
  real_ioctl (init_real_ioctl next p) = Some f ->
  f fd VIDIOC_QUERYCAP arg (mem p) = (0, m1) ->
  m1 !! arg = Some (Capability cap) ->
  c_str (card cap) = Some s ->
  ~ has_marker s ->
  ioctl next fd VIDIOC_QUERYCAP arg p = Ok (0, {| real_ioctl := Some f; mem := m1 |}).
Proof.
  intros Hres Hf Hm Hs Hno.
  apply (ioctl_querycap_miss _ _ _ _ _ _ _ Hres Hf Hm).
  unfold has_marker in Hno.
  apply (looks_like_loopback_miss _ _ Hs); tauto.
Qed.

(** X2.  For a card buffer made of [s], a NUL and any bytes [rest], with no
    NUL inside [s], the heuristic answers true exactly when [s] contains one
    of the three markers; [rest] has no say. *)
Theorem heuristic_reads_up_to_terminator (cap : v4l2_capability)
    (s rest : list byte) :
  card cap = s ++ x00 :: rest ->
  Forall (fun b => b <> x00) s ->
  exists hit, looks_like_loopback cap = Ok hit /\ (hit = true <-> has_marker s).
Proof.
  intros Hcard Hs.
  assert (c_str (card cap) = Some s) as Hstr
    by (rewrite Hcard; apply c_str_terminated; exact Hs).
  destruct (looks_like_loopback_defined _ _ Hstr) as [hit Hl].
  exists hit. split; [exact Hl |].
  destruct (looks_like_loopback_inv _ _ Hl) as (s' & Hs' & Hiff).
  rewrite Hstr in Hs'. injection Hs' as <-. exact Hiff.
Qed.

(** X3.  On every path that returns, memory at every address other than the
    argument is what the real implementation left there. *)
Theorem other_addresses_untouched (next : option ioctl_fn) (fd request arg : Z)
    (p p' : process) (f : ioctl_fn) (r ret : Z) (m1 : gmap Z object) :
  real_ioctl (init_real_ioctl next p) = Some f ->
  f fd request arg (mem p) = (ret, m1) ->
  ioctl next fd request arg p = Ok (r, p') ->
  forall a, a <> arg -> mem p' !! a = m1 !! a.
Proof.
  intros Hres Hf Hio a Ha.
  destruct (ioctl_inv _ _ _ _ _ _ _ _ _ _ Hres Hf Hio)
    as (_ & _ & [[_ ->] | (_ & _ & Hfix)]); [reflexivity |].
  destruct (querycap_fixup_inv _ _ _ Hfix) as (cap & _ & [[_ ->] | [_ ->]]);
    [| reflexivity].
  apply lookup_insert_ne. congruence.
Qed.

(** X4.  On every path that returns, a capability record behind the argument
    keeps its driver, card, bus_info, version and reserved fields, and no
    bit set in either bitmask field is cleared. *)
Theorem record_identity_kept (next : option ioctl_fn) (fd request arg : Z)
    (p p' : process) (f : ioctl_fn) (r ret : Z) (m1 : gmap Z object)
    (cap : v4l2_capability) :
  real_ioctl (init_real_ioctl next p) = Some f ->
  f fd request arg (mem p) = (ret, m1) ->
  m1 !! arg = Some (Capability cap) ->
  ioctl next fd request arg p = Ok (r, p') ->
  exists cap',
    mem p' !! arg = Some (Capability cap')
    /\ driver cap' = driver cap /\ card cap' = card cap
    /\ bus_info cap' = bus_info cap /\ version cap' = version cap
    /\ reserved cap' = reserved cap
    /\ no_bit_cleared (capabilities cap) (capabilities cap')
    /\ no_bit_cleared (device_caps cap) (device_caps cap').
Proof.
  intros Hres Hf Hm Hio.
  assert (forall a, no_bit_cleared a a) as Hrefl by (intros a i _ Hb; exact Hb).
  assert (forall a, no_bit_cleared a (or_u32 a V4L2_CAP_VIDEO_OUTPUT)) as Hor.
  { intros a i Hi Hb. rewrite or_u32_testbit by exact Hi. rewrite Hb. reflexivity. }
  destruct (ioctl_inv _ _ _ _ _ _ _ _ _ _ Hres Hf Hio)
    as (_ & _ & [[_ ->] | (_ & _ & Hfix)]).
  - exists cap. repeat split; auto.
  - destruct (querycap_fixup_inv _ _ _ Hfix) as (cap0 & Hm0 & [[_ ->] | [_ ->]]);
      rewrite Hm in Hm0; injection Hm0 as <-.
    + exists (add_video_output cap). rewrite lookup_insert_eq.
      repeat split; simpl; auto.
    + exists cap. repeat split; auto.
Qed.


(** X6.  A matching record that already advertises the output capability in
    both fields comes back exactly as the real implementation left it: the
    patch changes nothing. *)
Theorem output_already_set_untouched (next : option ioctl_fn) (fd arg : Z)
    (p : process) (f : ioctl_fn) (m1 : gmap Z object) (cap : v4l2_capability) :
  real_ioctl (init_real_ioctl next p) = Some f ->
  f fd VIDIOC_QUERYCAP arg (mem p) = (0, m1) ->
  m1 !! arg = Some (Capability cap) ->
  looks_like_loopback cap = Ok true ->
  is_u32 (capabilities cap) -> is_u32 (device_caps cap) ->
  has_cap (capabilities cap) V4L2_CAP_VIDEO_OUTPUT ->
  has_cap (device_caps cap) V4L2_CAP_VIDEO_OUTPUT ->
  ioctl next fd VIDIOC_QUERYCAP arg p = Ok (0, {| real_ioctl := Some f; mem := m1 |}).
Proof.
  intros Hres Hf Hm Hl Hc Hd Hco Hdo.
  rewrite (ioctl_querycap_hit _ _ _ _ _ _ _ Hres Hf Hm Hl).
  assert (add_video_output cap = cap) as ->.
  { unfold add_video_output, set_device_caps, set_capabilities, or_u32, u32; simpl.
    rewrite (lor_absorbs _ _ Hco), (lor_absorbs _ _ Hdo).
    rewrite !Z.mod_small by assumption. destruct cap; reflexivity. }
  rewrite (insert_id _ _ _ Hm). reflexivity.
Qed.



(** X9.  Resolution is lazy and sticks: in a run that starts with a null
    pointer and whose first call finds the delegate [f], every call is
    served by [f], whatever the loader would answer later, and the pointer
    ends as [f]. *)
Theorem first_call_resolves (c : call) (cs : list call) (p : process)
    (f : ioctl_fn) :
  real_ioctl p = None ->
  c_dlsym c = Some f ->
  run (c :: cs) p = '(rs, m') ← run_via f (c :: cs) (mem p);
                    Ok (rs, {| real_ioctl := Some f; mem := m' |}).
Proof.
  intros Hnull Hc. simpl.
  assert (step c p = '(r, m') ← step_via f c (mem p);
                     Ok (r, {| real_ioctl := Some f; mem := m' |})) as ->.
  { unfold step, step_via. apply ioctl_forward.
    unfold init_real_ioctl; simpl. rewrite Hnull, Hc. reflexivity. }
  destruct (step_via f c (mem p)) as [[r m1]|]; simpl; [| reflexivity].
  rewrite (run_resolved cs {| real_ioctl := Some f; mem := m1 |} f eq_refl); simpl.
  destruct (run_via f cs m1) as [[rs m2]|]; reflexivity.
Qed.

(** X10.  A failed lookup is not remembered: starting from a null pointer,
    repeated resolution ends with the first non-null answer of the loader,
    null if there is none, and never touches memory. *)
Theorem resolution_keeps_first_answer (answers : list (option ioctl_fn))
    (p : process) :
  real_ioctl p = None ->
  real_ioctl (resolve_all answers p) = first_answer answers
  /\ mem (resolve_all answers p) = mem p.
Proof.
  unfold resolve_all. revert p.
  induction answers as [|[g|] answers IH]; intros p Hnull; simpl.
  - split; [exact Hnull | reflexivity].
  - rewrite (init_real_ioctl_null _ _ Hnull).
    change (fold_left (fun q a => init_real_ioctl a q) answers
              {| real_ioctl := Some g; mem := mem p |})
      with (resolve_all answers {| real_ioctl := Some g; mem := mem p |}).
    rewrite (resolve_all_resolved answers {| real_ioctl := Some g; mem := mem p |} g eq_refl).
    split; reflexivity.
  - rewrite (init_real_ioctl_null _ _ Hnull).
    apply (IH {| real_ioctl := None; mem := mem p |}). reflexivity.
Qed.

(** X11.  The shim keeps nothing between calls but the delegate pointer: if
    the real implementation answers the query by writing the same record
    each time, a second query, whatever the loader says by then, returns
    the same status and leaves the process exactly as the first did. *)
Theorem repeated_query_stable (next : option ioctl_fn) (fd arg : Z)
    (p : process) (f : ioctl_fn) (cap : v4l2_capability) (s : list byte) :
  real_ioctl (init_real_ioctl next p) = Some f ->
  (forall m, f fd VIDIOC_QUERYCAP arg m = (0, <[arg := Capability cap]> m)) ->
  c_str (card cap) = Some s ->
  exists p1,
    ioctl next fd VIDIOC_QUERYCAP arg p = Ok (0, p1)
    /\ forall next', ioctl next' fd VIDIOC_QUERYCAP arg p1 = Ok (0, p1).
Proof.
  intros Hres Hf Hs.
  assert (forall m : gmap Z object,
            <[arg := Capability cap]> m !! arg = Some (Capability cap)) as Hlook
    by (intros m; apply lookup_insert_eq).
  destruct (looks_like_loopback_defined _ _ Hs) as [[|] Hl].
  - set (p1 := {| real_ioctl := Some f;
                  mem := <[arg := Capability (add_video_output cap)]>
                           (<[arg := Capability cap]> (mem p)) |}).
    exists p1. split.
    + exact (ioctl_querycap_hit _ _ _ _ _ _ _ Hres (Hf (mem p)) (Hlook _) Hl).
    + intros next'.
      rewrite (ioctl_querycap_hit next' fd arg p1 f _ cap eq_refl
                 (Hf (mem p1)) (Hlook _) Hl).
      unfold p1; simpl. rewrite !insert_insert_eq. reflexivity.
  - set (p1 := {| real_ioctl := Some f;
                  mem := <[arg := Capability cap]> (mem p) |}).
    exists p1. split.
    + exact (ioctl_querycap_miss _ _ _ _ _ _ _ Hres (Hf (mem p)) (Hlook _) Hl).
    + intros next'.
      rewrite (ioctl_querycap_miss next' fd arg p1 f _ cap eq_refl
                 (Hf (mem p1)) (Hlook _) Hl).
      unfold p1; simpl. rewrite !insert_insert_eq. reflexivity.
Qed.

End Extras.

(** ** Concrete runs for the further properties *)

Ltac no_nul_in_buffer :=
  vm_compute; repeat (constructor; [discriminate |]); constructor.

Ltac marker_absent :=
  let H := fresh "H" in
  intros [H | [H | H]]; apply (proj2 (find_found _ _)) in H; apply H;
  vm_compute; reflexivity.

(** X1, witness: card "USB2.0 HD UVC WebCam". *)
Lemma unmatched_record_untouched_witness :
  ioctl (Some (kernel_with uvc_webcam)) 7 VIDIOC_QUERYCAP 100 (start ∅) =
    Ok (0, {| real_ioctl := Some (kernel_with uvc_webcam);
              mem := answered uvc_webcam |}).
Proof.
  apply (unmatched_record_untouched (Some (kernel_with uvc_webcam)) 7 100
           (start ∅) (kernel_with uvc_webcam) (answered uvc_webcam) uvc_webcam
           (c_lit "USB2.0 HD UVC WebCam")).
  - reflexivity.
  - reflexivity.
  - vm_compute; reflexivity.
  - vm_compute; reflexivity.
  - marker_absent.
Defined.

(** X2, witness: the buffer "A", NUL, "Loopback", NUL...: the string is "A"
    and the verdict follows "A" alone. *)
Lemma heuristic_reads_up_to_terminator_witness :
  exists hit, looks_like_loopback stale_loopback = Ok hit
              /\ (hit = true <-> has_marker (c_lit "A")).
Proof.
  apply (heuristic_reads_up_to_terminator stale_loopback (c_lit "A")
           (c_lit "Loopback" ++ repeat x00 22)).
  - reflexivity.
  - no_nul_in_buffer.
Defined.

(** X3, witness: the patched query on "Dummy Loopback Device", read at
    address 200. *)
Lemma other_addresses_untouched_witness :
  mem (resolved (kernel_with dummy_loopback)
         (<[100 := Capability (blank_cap (c_lit "Dummy Loopback Device") 3)]>
            (answered dummy_loopback))) !! 200
  = answered dummy_loopback !! 200.
Proof.
  apply (other_addresses_untouched (Some (kernel_with dummy_loopback)) 7
           VIDIOC_QUERYCAP 100 (start ∅)
           (resolved (kernel_with dummy_loopback)
              (<[100 := Capability (blank_cap (c_lit "Dummy Loopback Device") 3)]>
                 (answered dummy_loopback)))
           (kernel_with dummy_loopback) 0 0 (answered dummy_loopback)).
  - reflexivity.
  - reflexivity.
  - vm_compute; reflexivity.
  - lia.
Defined.

(** X4, witness: the same call; the record afterwards differs from the one
    the kernel wrote in the two bitmask fields only. *)
Lemma record_identity_kept_witness :
  exists cap',
    mem (resolved (kernel_with dummy_loopback)
           (<[100 := Capability (blank_cap (c_lit "Dummy Loopback Device") 3)]>
              (answered dummy_loopback))) !! 100 = Some (Capability cap')
    /\ driver cap' = driver dummy_loopback /\ card cap' = card dummy_loopback
    /\ bus_info cap' = bus_info dummy_loopback
    /\ version cap' = version dummy_loopback
    /\ reserved cap' = reserved dummy_loopback
    /\ no_bit_cleared (capabilities dummy_loopback) (capabilities cap')
    /\ no_bit_cleared (device_caps dummy_loopback) (device_caps cap').
Proof.
  apply (record_identity_kept (Some (kernel_with dummy_loopback)) 7
           VIDIOC_QUERYCAP 100 (start ∅)
           (resolved (kernel_with dummy_loopback)
              (<[100 := Capability (blank_cap (c_lit "Dummy Loopback Device") 3)]>
                 (answered dummy_loopback)))
           (kernel_with dummy_loopback) 0 0 (answered dummy_loopback)
           dummy_loopback).
  - reflexivity.
  - reflexivity.
  - vm_compute; reflexivity.
  - vm_compute; reflexivity.
Defined.


(** X6, witness: card "v4l2loopback-000" with capture and output already
    set (both fields 3). *)
Lemma output_already_set_untouched_witness :
  ioctl (Some (kernel_with output_capable)) 7 VIDIOC_QUERYCAP 100 (start ∅) =
    Ok (0, {| real_ioctl := Some (kernel_with output_capable);
              mem := answered output_capable |}).
Proof.
  apply (output_already_set_untouched (Some (kernel_with output_capable)) 7 100
           (start ∅) (kernel_with output_capable) (answered output_capable)
           output_capable).
  - reflexivity.
  - reflexivity.
  - vm_compute; reflexivity.
  - vm_compute; reflexivity.
  - vm_compute; split; [discriminate | reflexivity].
  - vm_compute; split; [discriminate | reflexivity].
  - reflexivity.
  - reflexivity.
Defined.



(** X9, witness: two queries; the loader finds the kernel at the first and
    nothing at the second. *)
Lemma first_call_resolves_witness :
  run [query_at_100 (Some (kernel_with dummy_loopback)); query_at_100 None] (start ∅) =
    '(rs, m') ← run_via (kernel_with dummy_loopback)
                  [query_at_100 (Some (kernel_with dummy_loopback));
                   query_at_100 None] ∅;
    Ok (rs, {| real_ioctl := Some (kernel_with dummy_loopback); mem := m' |}).
Proof.
  apply (first_call_resolves (query_at_100 (Some (kernel_with dummy_loopback)))
           [query_at_100 None] (start ∅) (kernel_with dummy_loopback)).
  - reflexivity.
  - reflexivity.
Defined.

(** X10, witness: the loader fails once, then answers twice. *)
Lemma resolution_keeps_first_answer_witness :
  real_ioctl (resolve_all [None; Some (always 1); Some (always 2)] (start ∅))
    = first_answer [None; Some (always 1); Some (always 2)]
  /\ mem (resolve_all [None; Some (always 1); Some (always 2)] (start ∅))
     = mem (start ∅).
Proof.
  apply (resolution_keeps_first_answer [None; Some (always 1); Some (always 2)]
           (start ∅)).
  reflexivity.
Defined.

(** X11, witness: the kernel-like delegate queried twice about
    "Dummy Loopback Device". *)
Lemma repeated_query_stable_witness :
  exists p1,
    ioctl (Some (kernel_with dummy_loopback)) 7 VIDIOC_QUERYCAP 100 (start ∅)
      = Ok (0, p1)
    /\ forall next', ioctl next' 7 VIDIOC_QUERYCAP 100 p1 = Ok (0, p1).
Proof.
  apply (repeated_query_stable (Some (kernel_with dummy_loopback)) 7 100
           (start ∅) (kernel_with dummy_loopback) dummy_loopback
           (c_lit "Dummy Loopback Device")).
  - reflexivity.
  - intros m. reflexivity.
  - vm_compute; reflexivity.
Defined.
